(** * Bouncing balls on the Tufty 2040: a shallow embedding of [BALLS.py]

    The program keeps a list of [Ball] objects, moves each of them once
    per frame, bounces them off the four screen edges with a 5% loss of
    speed, and lets four buttons add or remove balls behind a 0.2 s
    debounce gate.

    Numbers.  Python integers are [Z].  Python floats are idealised as
    exact rationals [Q]: the operations [+], [-], [*] and the comparisons
    are the exact ones, the rounding of binary64 is not modelled.  An
    integer used in float arithmetic ([self.x - self.radius]) is injected
    with [inject_Z], as Python converts it.  The one place where the
    rounding decides what the program does, the debounce test at an
    elapsed time of exactly 0.2 s, is modelled a second time in binary64,
    at the end of the section.

    Objects.  [Ball] instances live in an allocation-ordered store; the
    global list [balls] holds references (indices into the store), so a
    mutation of a ball is a write to the store and the operations on the
    list can be seen to leave the objects alone.

    Environment.  The display bounds, the pen allocator of the display
    and the results of the [random] module are not part of the program:
    they are variables of the section below. *)

From Stdlib Require Import ZArith QArith Qabs Lqa Lia List Bool.
From Stdlib Require Strings.String Numbers.DecimalString.
From Stdlib Require PrimFloat Uint63.
From stdpp Require Import base list.
Import ListNotations.
Import String.StringSyntax.
Delimit Scope string_scope with string.

Set Default Proof Using "Type".

Local Open Scope Z_scope.
Local Open Scope Q_scope.

(** ** Comparisons of floats, as booleans *)

Definition Qltb (a b : Q) : bool := negb (Qle_bool b a).
Definition Qleb (a b : Q) : bool := Qle_bool a b.

(** Close a conjunction of goals that hold by computation or by hypothesis. *)
Ltac conjs := repeat split; first [reflexivity | assumption | congruence].

Section Tufty.

(** [WIDTH, HEIGHT = display.get_bounds()]: fixed by the display. *)
Variables WIDTH HEIGHT : Z.

(** The pen handles of the display and its [create_pen]. *)
Variable Pen : Type.
Variable create_pen : Z -> Z -> Z -> Pen.

(** ** class Ball *)

Record Ball : Type := mkBall {
  x : Q;
  y : Q;
  radius : Z;
  vx : Q;
  vy : Q;
  pen : Pen;
  dampening : Q
}.

(** [Ball.__init__]: the six arguments, and [dampening = 0.95]. *)
Definition Ball_init (x0 y0 : Q) (r : Z) (vx0 vy0 : Q) (p : Pen) : Ball :=
  mkBall x0 y0 r vx0 vy0 p 0.95.

(** Attribute assignments [self.f = v]. *)
Definition set_x (v : Q) (b : Ball) : Ball :=
  mkBall v (y b) (radius b) (vx b) (vy b) (pen b) (dampening b).
Definition set_y (v : Q) (b : Ball) : Ball :=
  mkBall (x b) v (radius b) (vx b) (vy b) (pen b) (dampening b).
Definition set_vx (v : Q) (b : Ball) : Ball :=
  mkBall (x b) (y b) (radius b) v (vy b) (pen b) (dampening b).
Definition set_vy (v : Q) (b : Ball) : Ball :=
  mkBall (x b) (y b) (radius b) (vx b) v (pen b) (dampening b).

(** [self.x += self.vx; self.y += self.vy] *)
Definition apply_velocity (b : Ball) : Ball :=
  let b := set_x (x b + vx b) b in
  set_y (y b + vy b) b.

(** The test [self.x - self.radius < 0 or self.x + self.radius > WIDTH]. *)
Definition hits_left (b : Ball) : bool := Qltb (x b - inject_Z (radius b)) 0.
Definition hits_right (b : Ball) : bool :=
  Qltb (inject_Z WIDTH) (x b + inject_Z (radius b)).
Definition hits_top (b : Ball) : bool := Qltb (y b - inject_Z (radius b)) 0.
Definition hits_bottom (b : Ball) : bool :=
  Qltb (inject_Z HEIGHT) (y b + inject_Z (radius b)).

(** Left/Right walls. *)
Definition bounce_x (b : Ball) : Ball :=
  if hits_left b || hits_right b then
    let b := set_vx (vx b * - dampening b) b in
    if hits_left b then set_x (inject_Z (radius b)) b
    else set_x (inject_Z (WIDTH - radius b)) b
  else b.

(** Top/Bottom walls. *)
Definition bounce_y (b : Ball) : Ball :=
  if hits_top b || hits_bottom b then
    let b := set_vy (vy b * - dampening b) b in
    if hits_top b then set_y (inject_Z (radius b)) b
    else set_y (inject_Z (HEIGHT - radius b)) b
  else b.

(** [Ball.update]: move, then the x walls, then the y walls. *)
Definition update (b : Ball) : Ball :=
  bounce_y (bounce_x (apply_velocity b)).

(** ** Pens *)

Definition BLACK : Pen := create_pen 0 0 0.
Definition WHITE : Pen := create_pen 255 255 255.
Definition TITLE_COLOR : Pen := create_pen 150 200 255.

(** The six shades of purple of [generate_pens]. *)
Definition colors : list (Z * Z * Z) :=
  [ (102, 0, 153); (147, 112, 219); (180, 150, 255);
    (255, 0, 255); (75, 0, 130); (85, 40, 115) ]%Z.

(** [generate_pens] appends one pen per colour to [BALL_PENS]. *)
Definition generate_pens (ball_pens : list Pen) : list Pen :=
  fold_left (fun pens '(r, g, b) => pens ++ [create_pen r g b])
            colors ball_pens.

(** [BALL_PENS = []] followed by the call [generate_pens()]. *)
Definition BALL_PENS : list Pen := generate_pens [].

(** ** The [random] module

    One call of [add_ball] asks [random] four times.  [Draw] holds the
    four answers: [random.randint(5, 15)], the two [random.uniform(-4, 4)]
    and the index that [random.choice] picked in its argument.  The answers
    given to the k-th call of [add_ball] are [random k]. *)

Record Draw : Type := mkDraw {
  rand_radius : Z;
  rand_vx : Q;
  rand_vy : Q;
  rand_pen : nat
}.

Variable random : nat -> Draw.

(** What the documentation of [random] promises about the answers. *)
Definition draw_ok (d : Draw) : Prop :=
  (5 <= rand_radius d <= 15)%Z /\
  -4 <= rand_vx d <= 4 /\
  -4 <= rand_vy d <= 4 /\
  (rand_pen d < length BALL_PENS)%nat.

(** [random.choice(seq)] with the picked index. *)
Definition choice (i : nat) (seq : list Pen) : Pen := nth i seq BLACK.

(** ** Game state

    [store] holds every [Ball] object ever allocated, in allocation order;
    [balls] is the global list, a list of references into the store;
    [random_calls] counts the calls of [add_ball] so far. *)

Record World : Type := mkWorld {
  store : list Ball;
  balls : list nat;
  last_press_time : Q;
  random_calls : nat
}.

Definition DEBOUNCE_TIME : Q := 0.2.

(** [if abs(v) < 1: v = 1.0 if v >= 0 else -1.0] *)
Definition avoid_zero (v : Q) : Q :=
  if Qltb (Qabs v) 1 then (if Qleb 0 v then 1 else -1) else v.

(** The [Ball(x, y, radius, vx, vy, pen)] that [add_ball] builds. *)
Definition new_ball (d : Draw) : Ball :=
  let radius := rand_radius d in
  let vx := avoid_zero (rand_vx d) in
  let vy := avoid_zero (rand_vy d) in
  let x := inject_Z (WIDTH / 2) in
  let y := inject_Z (HEIGHT / 2) in
  let pen := choice (rand_pen d) BALL_PENS in
  Ball_init x y radius vx vy pen.

(** [add_ball]: allocate the ball, append the reference. *)
Definition add_ball (s : World) : World :=
  let b := new_ball (random (random_calls s)) in
  {| store := store s ++ [b];
     balls := balls s ++ [length (store s)];
     last_press_time := last_press_time s;
     random_calls := S (random_calls s) |}.

(** [remove_ball]: [if balls: balls.pop()]. *)
Definition remove_ball (s : World) : World :=
  match balls s with
  | [] => s
  | _ :: _ =>
      {| store := store s;
         balls := removelast (balls s);
         last_press_time := last_press_time s;
         random_calls := random_calls s |}
  end.

(** [remove_all_balls]: [balls = []]. *)
Definition remove_all_balls (s : World) : World :=
  {| store := store s;
     balls := [];
     last_press_time := last_press_time s;
     random_calls := random_calls s |}.

(** [add_multiple_balls(count)]: [for _ in range(count): add_ball()];
    the range of a negative count is empty. *)
Definition add_multiple_balls (count : Z) (s : World) : World :=
  Nat.iter (Z.to_nat count) add_ball s.

(** The state after the module is loaded: [balls = []],
    [last_press_time = 0.0], then [add_multiple_balls(3)]. *)
Definition empty_world : World :=
  {| store := []; balls := []; last_press_time := 0; random_calls := 0 |}.

Definition initial_world : World := add_multiple_balls 3 empty_world.

(** ** The main loop *)

(** What one iteration reads from the hardware: the clock and the four
    buttons that the loop looks at.  The millisecond counter is taken as
    it is read; its wrap-around on the device is outside the model. *)
Record Input : Type := mkInput {
  ticks_ms : Z;
  button_up : bool;
  button_down : bool;
  button_left : bool;
  button_right : bool
}.

Definition set_last_press_time (t : Q) (s : World) : World :=
  {| store := store s;
     balls := balls s;
     last_press_time := t;
     random_calls := random_calls s |}.

(** [current_time = time.ticks_ms() / 1000.0] *)
Definition current_time (i : Input) : Q := inject_Z (ticks_ms i) / 1000.

(** Step 1 of the loop body, the input handling. *)
Definition handle_input (i : Input) (s : World) : World :=
  if Qltb DEBOUNCE_TIME (current_time i - last_press_time s) then
    if button_up i then
      set_last_press_time (current_time i) (add_ball s)
    else if button_down i then
      set_last_press_time (current_time i) (remove_ball s)
    else if button_left i then
      set_last_press_time (current_time i) (remove_all_balls s)
    else if button_right i then
      set_last_press_time (current_time i) (add_multiple_balls 100 s)
    else s
  else s.

(** Step 4 of the loop body: [for ball in balls: ball.update()], a write
    to the store for each reference of the list, in list order.  The
    drawing calls write to the display only and are left out. *)
Definition update_balls (s : World) : World :=
  {| store := fold_left (fun h l => alter update l h) (balls s) (store s);
     balls := balls s;
     last_press_time := last_press_time s;
     random_calls := random_calls s |}.

(** One iteration of [while True]. *)
Definition frame (i : Input) (s : World) : World :=
  update_balls (handle_input i s).

(** [run_game] over the inputs of its first iterations. *)
Definition run_game (inputs : list Input) (s : World) : World :=
  fold_left (fun w i => frame i w) inputs s.


(** ** Drawing

    The display and the clock are written to, never read back, by the
    loop: what the program does to them is kept as a list of effects, in
    the order of the calls. *)

Inductive Effect : Type :=
  | SetPen (p : Pen)                          (* display.set_pen(p) *)
  | Clear                                     (* display.clear() *)
  | Text (s : String.string) (tx ty scale : Z)
                                   (* display.text(s, tx, ty, scale=scale) *)
  | Circle (cx cy r : Z)                      (* display.circle(cx, cy, r) *)
  | Update                                    (* display.update() *)
  | Sleep (seconds : Q).                      (* time.sleep(seconds) *)

(** [int(v)] of a float: the fraction is cut off, towards zero. *)
Definition int_of_float (v : Q) : Z := Z.quot (Qnum v) (Zpos (Qden v)).

(** [str(n)] of a length: its decimal digits. *)
Definition str (n : nat) : String.string :=
  DecimalString.NilZero.string_of_uint (Nat.to_uint n).

(** [Ball.draw] *)
Definition draw (b : Ball) : list Effect :=
  [ SetPen (pen b);
    Circle (int_of_float (x b)) (int_of_float (y b)) (radius b) ].

Definition FRAME_DELAY_MS : Z := 20.
Definition FRAME_DELAY_S : Q := inject_Z FRAME_DELAY_MS / 1000.

(** Steps 2 and 3 of the loop body: clear the screen, draw the title and
    the count of [len(balls)]. *)
Definition draw_info (s : World) : list Effect :=
  [ SetPen BLACK; Clear;
    SetPen TITLE_COLOR;
    Text "UP/DOWN: +/- 1"%string 5 5 2;
    Text "A: Clear | C: +100"%string 5 20 2;
    Text (String.append "COUNT: "%string (str (length (balls s))))
         5 (HEIGHT - 15) 2 ].

(** The body of [for ball in balls]: [ball.update()] writes the store,
    [ball.draw()] reads the ball back and draws it.  A reference that
    points nowhere has nothing to draw. *)
Definition update_and_draw (st : list Ball * list Effect) (l : nat) :
  list Ball * list Effect :=
  let h := alter update l (fst st) in
  (h, snd st ++ match h !! l with Some b => draw b | None => [] end).

(** One iteration of [while True] with everything it does: the new state
    and the effects on display and clock. *)
Definition run_frame (i : Input) (s : World) : World * list Effect :=
  let s := handle_input i s in
  let info := draw_info s in
  let st := fold_left update_and_draw (balls s) (store s, info) in
  ({| store := fst st;
      balls := balls s;
      last_press_time := last_press_time s;
      random_calls := random_calls s |},
   snd st ++ [Update; Sleep FRAME_DELAY_S]).

(** The first iterations of [run_game] with their effects. *)
Definition run_frames (inputs : list Input) (s : World) :
  World * list Effect :=
  fold_left (fun st i => let r := run_frame i (fst st) in
                         (fst r, snd st ++ snd r))
            inputs (s, []).

(** ** Notions used to state the properties *)

(** The slack that the position is allowed around the legal interval. *)
Definition slack : Q := 0.0001.

(** The ball lies within the screen, up to [slack], on both axes. *)
Definition in_bounds (b : Ball) : Prop :=
  (inject_Z (radius b) - slack <= x b /\
   x b <= inject_Z WIDTH - inject_Z (radius b) + slack) /\
  (inject_Z (radius b) - slack <= y b /\
   y b <= inject_Z HEIGHT - inject_Z (radius b) + slack).

(** The update with the two wall checks swapped: top/bottom first, then
    left/right.  It is not in the program; it is what the program is
    compared with. *)
Definition update_yx (b : Ball) : Ball :=
  bounce_x (bounce_y (apply_velocity b)).

(** The wall tests of one tick, taken after the move. *)
Definition x_violation (b : Ball) : bool :=
  hits_left (apply_velocity b) || hits_right (apply_velocity b).
Definition y_violation (b : Ball) : bool :=
  hits_top (apply_velocity b) || hits_bottom (apply_velocity b).

(** The reference that [balls.pop()] would return. *)
Definition popped (s : World) : option nat := last (balls s).

(** The four commands of the controller, in the words of the
    specification, and the operation that each stands for. *)
Inductive Command : Type := AddOne | RemoveOne | ClearAll | AddHundred.

Definition run_command (c : Command) (s : World) : World :=
  match c with
  | AddOne => add_ball s
  | RemoveOne => remove_ball s
  | ClearAll => remove_all_balls s
  | AddHundred => add_multiple_balls 100 s
  end.

(** The signals in their priority order. *)
Definition signals (i : Input) : list (Command * bool) :=
  [ (AddOne, button_up i); (RemoveOne, button_down i);
    (ClearAll, button_left i); (AddHundred, button_right i) ].

(** The first active signal in the priority order, if any. *)
Definition first_active (i : Input) : option Command :=
  fst <$> find (fun cb => snd cb) (signals i).

(** The debounce gate as the program tests it. *)
Definition gate_open (i : Input) (s : World) : Prop :=
  DEBOUNCE_TIME < current_time i - last_press_time s.

(** What the specification asks of the input handling once the gate has
    let it through: the command of the first active signal, then the
    time stamp. *)
Definition dispatch (i : Input) (s : World) : World :=
  match first_active i with
  | Some c => set_last_press_time (current_time i) (run_command c s)
  | None => s
  end.

(** Two balls that differ in position and velocity at most. *)
Definition same_identity (b b' : Ball) : Prop :=
  radius b' = radius b /\ pen b' = pen b /\ dampening b' = dampening b.

(** The state of a game in progress: every reference of [balls] points
    into the store and occurs once, and every ball of the store fits the
    screen and lies within it. *)
Definition ball_ok (b : Ball) : Prop :=
  (2 * radius b <= WIDTH)%Z /\ (2 * radius b <= HEIGHT)%Z /\ in_bounds b.

Definition world_ok (s : World) : Prop :=
  NoDup (balls s) /\
  (forall l : nat, l ∈ balls s -> (l < length (store s))%nat) /\
  (forall (l : nat) (b : Ball), store s !! l = Some b -> ball_ok b).

(** The circle lies on the screen as a whole. *)
Definition on_screen (e : Effect) : Prop :=
  match e with
  | Circle cx cy r =>
      (0 <= cx - r /\ cx + r <= WIDTH /\ 0 <= cy - r /\ cy + r <= HEIGHT)%Z
  | _ => True
  end.

Definition is_circle (e : Effect) : bool :=
  match e with Circle _ _ _ => true | _ => false end.

(** The list of balls holds references into the store, each one once. *)
Definition refs_ok (s : World) : Prop :=
  NoDup (balls s) /\
  (forall l : nat, l ∈ balls s -> (l < length (store s))%nat).

(** What [ball.draw()] shows of the ball behind a reference. *)
Definition picture (h : list Ball) (l : nat) : list Effect :=
  match h !! l with Some b => draw b | None => [] end.

(** The ball moves, at no more than 4 pixels a frame on each axis, and
    loses 5% of its speed at a bounce. *)
Definition lively (b : Ball) : Prop :=
  (0 < Qabs (vx b) /\ Qabs (vx b) <= 4) /\
  (0 < Qabs (vy b) /\ Qabs (vy b) <= 4) /\
  dampening b = 0.95.



(** ** Comparisons *)

Lemma Qltb_lt a b : Qltb a b = true <-> a < b.
Proof.
  unfold Qltb. rewrite negb_true_iff, <- not_true_iff_false, Qle_bool_iff.
  split; [apply Qnot_le_lt | apply Qlt_not_le].
Qed.

Lemma Qltb_ge a b : Qltb a b = false <-> b <= a.
Proof.
  unfold Qltb. rewrite negb_false_iff. apply Qle_bool_iff.
Qed.

Lemma Qleb_le a b : Qleb a b = true <-> a <= b.
Proof. apply Qle_bool_iff. Qed.

Lemma Qleb_gt a b : Qleb a b = false <-> b < a.
Proof.
  unfold Qleb. rewrite <- not_true_iff_false, Qle_bool_iff.
  split; [apply Qnot_le_lt | apply Qlt_not_le].
Qed.

(** ** The update of one ball *)

Lemma Qabs_damped (v : Q) : Qabs (v * Qopp 0.95) == 0.95 * Qabs v.
Proof. rewrite Qabs_Qmult. change (Qabs (Qopp 0.95)) with 0.95. ring. Qed.

Lemma inject_Z_sub (a b : Z) : inject_Z (a - b) == inject_Z a - inject_Z b.
Proof.
  unfold Z.sub. rewrite inject_Z_plus, inject_Z_opp. reflexivity.
Qed.

(** Turn the boolean tests of the walls into (in)equalities. *)
Ltac walls :=
  repeat match goal with
  | H : _ || _ = true |- _ => apply orb_true_iff in H
  | H : _ || _ = false |- _ => apply orb_false_iff in H; destruct H
  | H : Qltb _ _ = true |- _ => apply Qltb_lt in H
  | H : Qltb _ _ = false |- _ => apply Qltb_ge in H
  | H : Qleb _ _ = true |- _ => apply Qleb_le in H
  | H : Qleb _ _ = false |- _ => apply Qleb_gt in H
  end.

(** A wall test looks at one coordinate and at the radius only. *)
Lemma hits_left_bounce_y b : hits_left (bounce_y b) = hits_left b.
Proof.
  unfold bounce_y, hits_left.
  destruct (hits_top b || hits_bottom b); [|reflexivity].
  cbn. destruct (hits_top _); reflexivity.
Qed.

Lemma hits_right_bounce_y b : hits_right (bounce_y b) = hits_right b.
Proof.
  unfold bounce_y, hits_right.
  destruct (hits_top b || hits_bottom b); [|reflexivity].
  cbn. destruct (hits_top _); reflexivity.
Qed.

Lemma hits_top_bounce_x b : hits_top (bounce_x b) = hits_top b.
Proof.
  unfold bounce_x, hits_top.
  destruct (hits_left b || hits_right b); [|reflexivity].
  cbn. destruct (hits_left _); reflexivity.
Qed.

Lemma hits_bottom_bounce_x b : hits_bottom (bounce_x b) = hits_bottom b.
Proof.
  unfold bounce_x, hits_bottom.
  destruct (hits_left b || hits_right b); [|reflexivity].
  cbn. destruct (hits_left _); reflexivity.
Qed.

(** The fields that each half of the update leaves alone. *)
Lemma bounce_x_frame b :
  y (bounce_x b) = y b /\ vy (bounce_x b) = vy b /\
  radius (bounce_x b) = radius b /\ pen (bounce_x b) = pen b /\
  dampening (bounce_x b) = dampening b.
Proof.
  unfold bounce_x. destruct (hits_left b || hits_right b); [|conjs].
  cbn. destruct (hits_left _); cbn; conjs.
Qed.

Lemma bounce_y_frame b :
  x (bounce_y b) = x b /\ vx (bounce_y b) = vx b /\
  radius (bounce_y b) = radius b /\ pen (bounce_y b) = pen b /\
  dampening (bounce_y b) = dampening b.
Proof.
  unfold bounce_y. destruct (hits_top b || hits_bottom b); [|conjs].
  cbn. destruct (hits_top _); cbn; conjs.
Qed.

Lemma update_frame b :
  radius (update b) = radius b /\ pen (update b) = pen b /\
  dampening (update b) = dampening b.
Proof.
  unfold update.
  destruct (bounce_y_frame (bounce_x (apply_velocity b)))
    as (_ & _ & -> & -> & ->).
  destruct (bounce_x_frame (apply_velocity b)) as (_ & _ & -> & -> & ->).
  cbn. conjs.
Qed.

Lemma iter_update_frame n b :
  radius (Nat.iter n update b) = radius b /\
  pen (Nat.iter n update b) = pen b /\
  dampening (Nat.iter n update b) = dampening b.
Proof.
  induction n as [|n IH]; [cbn; conjs|].
  change (Nat.iter (S n) update b) with (update (Nat.iter n update b)).
  destruct (update_frame (Nat.iter n update b)) as (-> & -> & ->).
  exact IH.
Qed.

(** The x half of the update, by cases. *)
Lemma update_x_cases b :
  let m := apply_velocity b in
  (hits_left m = true /\
     x (update b) = inject_Z (radius b) /\
     vx (update b) = vx b * - dampening b) \/
  (hits_left m = false /\ hits_right m = true /\
     x (update b) = inject_Z (WIDTH - radius b) /\
     vx (update b) = vx b * - dampening b) \/
  (hits_left m = false /\ hits_right m = false /\
     x (update b) = x b + vx b /\
     vx (update b) = vx b).
Proof.
  intros m. unfold update. fold m.
  destruct (bounce_y_frame (bounce_x m)) as (-> & -> & _).
  unfold bounce_x.
  destruct (hits_left m) eqn:Hl; cbn.
  - left. unfold hits_left in *. cbn in *. rewrite Hl. cbn. conjs.
  - destruct (hits_right m) eqn:Hr; cbn.
    + right; left. unfold hits_left in *. cbn in *. rewrite Hl. cbn. conjs.
    + right; right. conjs.
Qed.

(** The y half of the update, by cases. *)
Lemma update_y_cases b :
  let m := apply_velocity b in
  (hits_top m = true /\
     y (update b) = inject_Z (radius b) /\
     vy (update b) = vy b * - dampening b) \/
  (hits_top m = false /\ hits_bottom m = true /\
     y (update b) = inject_Z (HEIGHT - radius b) /\
     vy (update b) = vy b * - dampening b) \/
  (hits_top m = false /\ hits_bottom m = false /\
     y (update b) = y b + vy b /\
     vy (update b) = vy b).
Proof.
  intros m. unfold update. fold m.
  pose proof (hits_top_bounce_x m) as Ht.
  pose proof (hits_bottom_bounce_x m) as Hb.
  destruct (bounce_x_frame m) as (Hy & Hvy & Hr & _ & Hd).
  unfold bounce_y. rewrite Ht, Hb.
  destruct (hits_top m) eqn:Hl; cbn.
  - left. unfold hits_top in *. cbn in *. rewrite Ht. cbn.
    rewrite Hr, Hvy, Hd. conjs.
  - destruct (hits_bottom m) eqn:Hbt; cbn.
    + right; left. unfold hits_top in *. cbn in *. rewrite Ht. cbn.
      rewrite Hr, Hvy, Hd. conjs.
    + right; right. rewrite Hy, Hvy. conjs.
Qed.

(** After one update the position is inside the legal interval, exactly,
    whatever the state before. *)
Lemma update_clamps b :
  (2 * radius b <= WIDTH)%Z -> (2 * radius b <= HEIGHT)%Z ->
  (inject_Z (radius b) <= x (update b) /\
   x (update b) <= inject_Z WIDTH - inject_Z (radius b)) /\
  (inject_Z (radius b) <= y (update b) /\
   y (update b) <= inject_Z HEIGHT - inject_Z (radius b)).
Proof.
  intros HW HH.
  rewrite Zle_Qle, inject_Z_mult in HW, HH.
  change (inject_Z 2) with 2 in HW, HH.
  split.
  - destruct (update_x_cases b) as
      [(Hl & -> & _) | [(Hl & Hr & -> & _) | (Hl & Hr & -> & _)]].
    + lra.
    + rewrite inject_Z_sub. lra.
    + unfold hits_left, hits_right in *. cbn in *. walls. lra.
  - destruct (update_y_cases b) as
      [(Hl & -> & _) | [(Hl & Hr & -> & _) | (Hl & Hr & -> & _)]].
    + lra.
    + rewrite inject_Z_sub. lra.
    + unfold hits_top, hits_bottom in *. cbn in *. walls. lra.
Qed.

(** A new ball sits at the midpoint, which is inside the legal interval. *)
Lemma new_ball_in_bounds d :
  (2 * rand_radius d <= WIDTH)%Z -> (2 * rand_radius d <= HEIGHT)%Z ->
  in_bounds (new_ball d).
Proof.
  intros HW HH. unfold in_bounds, slack. cbn.
  assert (Hmid : forall n r : Z, (2 * r <= n)%Z ->
            inject_Z r <= inject_Z (n / 2) /\
            inject_Z (n / 2) <= inject_Z n - inject_Z r).
  { intros n r Hr. split.
    - rewrite <- Zle_Qle. apply Z.div_le_lower_bound; lia.
    - rewrite <- inject_Z_sub, <- Zle_Qle.
      pose proof (Z.mul_div_le n 2 ltac:(lia)).
      pose proof (Z.mod_pos_bound n 2 ltac:(lia)).
      pose proof (Z.div_mod n 2 ltac:(lia)). lia. }
  destruct (Hmid WIDTH _ HW), (Hmid HEIGHT _ HH).
  repeat split; lra.
Qed.

(** C1. A ball whose diameter fits the screen on both axes stays within
    [radius - 0.0001, dimension - radius + 0.0001] on each axis after any
    number of updates from its creation state. *)
Theorem update_stays_in_bounds (d : Draw) (n : nat) :
  (2 * rand_radius d <= WIDTH)%Z -> (2 * rand_radius d <= HEIGHT)%Z ->
  in_bounds (Nat.iter n update (new_ball d)).
Proof.
  intros HW HH. destruct n as [|n].
  - apply new_ball_in_bounds; assumption.
  - change (Nat.iter (S n) update (new_ball d))
      with (update (Nat.iter n update (new_ball d))).
    set (b := Nat.iter n update (new_ball d)).
    assert (Hr : radius b = rand_radius d)
      by (unfold b; rewrite (proj1 (iter_update_frame n _)); reflexivity).
    pose proof (update_clamps b) as Hc. rewrite Hr in Hc.
    destruct (Hc HW HH) as ((? & ?) & (? & ?)).
    unfold in_bounds, slack.
    rewrite (proj1 (update_frame b)), Hr.
    repeat split; lra.
Qed.

(** C2. A ball that moves left and whose move takes it across the left
    wall leaves the update with a positive x-velocity of 0.95 times the
    old speed and with its x-position equal to its radius. *)
Theorem left_wall_bounce (b : Ball) :
  dampening b = 0.95 ->
  vx b < 0 ->
  x b + vx b - inject_Z (radius b) < 0 ->
  0 < vx (update b) /\
  vx (update b) = vx b * Qopp 0.95 /\
  Qabs (vx (update b)) == 0.95 * Qabs (vx b) /\
  x (update b) = inject_Z (radius b).
Proof.
  intros Hd Hv Hx.
  destruct (update_x_cases b) as
    [(Hl & Hxu & Hvu) | [(Hl & _) | (Hl & _)]].
  - rewrite Hxu, Hvu, Hd.
    repeat split.
    + lra.
    + apply Qabs_damped.
  - unfold hits_left in Hl. cbn in Hl. walls. lra.
  - unfold hits_left in Hl. cbn in Hl. walls. lra.
Qed.

(** C7. Checking the top/bottom walls before the left/right walls gives
    the same ball as the order of the program, corner bounces included. *)
Theorem update_order_irrelevant (b : Ball) : update_yx b = update b.
Proof.
  unfold update_yx, update.
  destruct (apply_velocity b) as [mx my mr mvx mvy mp md].
  destruct (Qltb (mx - inject_Z mr) 0) eqn:E1,
    (Qltb (inject_Z WIDTH) (mx + inject_Z mr)) eqn:E2,
    (Qltb (my - inject_Z mr) 0) eqn:E3,
    (Qltb (inject_Z HEIGHT) (my + inject_Z mr)) eqn:E4;
    repeat (cbv [bounce_x bounce_y hits_left hits_right hits_top hits_bottom
                 set_x set_y set_vx set_vy x y radius vx vy pen dampening
                 orb];
            rewrite ?E1, ?E2, ?E3, ?E4);
    reflexivity.
Qed.

(** The velocity after one update, by the outcome of the wall tests. *)
Lemma update_vx b :
  vx (update b) = if x_violation b then vx b * - dampening b else vx b.
Proof.
  unfold x_violation.
  destruct (update_x_cases b) as
    [(-> & _ & ->) | [(-> & -> & _ & ->) | (-> & -> & _ & ->)]];
    reflexivity.
Qed.

Lemma update_vy b :
  vy (update b) = if y_violation b then vy b * - dampening b else vy b.
Proof.
  unfold y_violation.
  destruct (update_y_cases b) as
    [(-> & _ & ->) | [(-> & -> & _ & ->) | (-> & -> & _ & ->)]];
    reflexivity.
Qed.

Lemma update_speed b :
  dampening b = 0.95 ->
  Qabs (vx (update b)) <= Qabs (vx b) /\ Qabs (vy (update b)) <= Qabs (vy b).
Proof.
  intros Hd. rewrite update_vx, update_vy, Hd.
  pose proof (Qabs_nonneg (vx b)). pose proof (Qabs_nonneg (vy b)).
  split.
  - destruct (x_violation b); [rewrite Qabs_damped|]; lra.
  - destruct (y_violation b); [rewrite Qabs_damped|]; lra.
Qed.

(** C10. One update leaves the speed on an axis as it is when the wall
    test of that axis does not fire, makes it 0.95 times the old speed when
    it does, and so never increases it; over repeated updates the speed on
    each axis only decays, and a bounce at speed 1 takes it below 1. *)
Theorem update_never_speeds_up (b : Ball) :
  dampening b = 0.95 ->
  (x_violation b = false -> Qabs (vx (update b)) == Qabs (vx b)) /\
  (x_violation b = true -> Qabs (vx (update b)) == 0.95 * Qabs (vx b)) /\
  (y_violation b = false -> Qabs (vy (update b)) == Qabs (vy b)) /\
  (y_violation b = true -> Qabs (vy (update b)) == 0.95 * Qabs (vy b)) /\
  Qabs (vx (update b)) <= Qabs (vx b) /\
  Qabs (vy (update b)) <= Qabs (vy b) /\
  (forall n : nat,
     Qabs (vx (Nat.iter (S n) update b)) <= Qabs (vx (Nat.iter n update b)) /\
     Qabs (vy (Nat.iter (S n) update b)) <= Qabs (vy (Nat.iter n update b))) /\
  (x_violation b = true -> Qabs (vx b) == 1 -> Qabs (vx (update b)) < 1) /\
  (y_violation b = true -> Qabs (vy b) == 1 -> Qabs (vy (update b)) < 1).
Proof.
  intros Hd.
  assert (Hx0 : x_violation b = false -> Qabs (vx (update b)) == Qabs (vx b))
    by (intros E; rewrite update_vx, E; reflexivity).
  assert (Hx1 : x_violation b = true ->
                Qabs (vx (update b)) == 0.95 * Qabs (vx b))
    by (intros E; rewrite update_vx, E, Hd; apply Qabs_damped).
  assert (Hy0 : y_violation b = false -> Qabs (vy (update b)) == Qabs (vy b))
    by (intros E; rewrite update_vy, E; reflexivity).
  assert (Hy1 : y_violation b = true ->
                Qabs (vy (update b)) == 0.95 * Qabs (vy b))
    by (intros E; rewrite update_vy, E, Hd; apply Qabs_damped).
  destruct (update_speed b Hd) as (Hsx & Hsy).
  repeat split; try assumption.
  - change (Nat.iter (S n) update b) with (update (Nat.iter n update b)).
    apply update_speed.
    destruct (iter_update_frame n b) as (_ & _ & ->). exact Hd.
  - change (Nat.iter (S n) update b) with (update (Nat.iter n update b)).
    apply update_speed.
    destruct (iter_update_frame n b) as (_ & _ & ->). exact Hd.
  - intros E H1. rewrite (Hx1 E), H1. lra.
  - intros E H1. rewrite (Hy1 E), H1. lra.
Qed.

(** ** The list of balls *)

Lemma add_ball_n (n : nat) (s : World) :
  let s' := Nat.iter n add_ball s in
  store s' =
    store s ++
    map (fun k => new_ball (random (random_calls s + k)%nat)) (seq 0 n) /\
  balls s' = balls s ++ seq (length (store s)) n /\
  last_press_time s' = last_press_time s /\
  random_calls s' = (random_calls s + n)%nat.
Proof.
  induction n as [|n IH]; cbn zeta.
  - cbn. rewrite !app_nil_r, Nat.add_0_r. conjs.
  - change (Nat.iter (S n) add_ball s) with (add_ball (Nat.iter n add_ball s)).
    cbn zeta in IH. destruct IH as (Hs & Hb & Ht & Hr).
    set (w := Nat.iter n add_ball s) in *.
    unfold add_ball. cbn [store balls last_press_time random_calls].
    rewrite Hs, Hb, Ht, Hr, !seq_S, map_app, !app_assoc.
    rewrite !length_app, length_map, length_seq. cbn [map].
    repeat split; f_equal; lia.
Qed.

Lemma remove_ball_last (w : World) (l : list nat) (r : nat) :
  balls w = l ++ [r] ->
  balls (remove_ball w) = l /\ store (remove_ball w) = store w /\
  popped w = Some r.
Proof.
  intros Hw. unfold remove_ball, popped. rewrite Hw.
  destruct (l ++ [r]) eqn:E.
  - destruct l; discriminate.
  - rewrite <- E. cbn. rewrite removelast_last, last_snoc. conjs.
Qed.

Lemma remove_ball_n (k n a : nat) (l : list nat) (s : World) :
  balls s = l ++ seq a n -> (k <= n)%nat ->
  balls (Nat.iter k remove_ball s) = l ++ seq a (n - k).
Proof.
  intros Hs. induction k as [|k IH]; intros Hk.
  - cbn. rewrite Nat.sub_0_r. exact Hs.
  - change (Nat.iter (S k) remove_ball s)
      with (remove_ball (Nat.iter k remove_ball s)).
    specialize (IH ltac:(lia)).
    replace (n - k)%nat with (S (n - S k)) in IH by lia.
    rewrite seq_S, app_assoc in IH.
    apply (remove_ball_last _ _ _ IH).
Qed.

(** C5. [add_multiple_balls(n)] appends exactly [n] balls, in order of
    creation; [remove_ball] takes away the ball appended last; after
    [add_multiple_balls(5)] on the empty list the length is 5, and five
    calls of [remove_ball] empty it again, the creation indices of the
    removed balls going down one by one. *)
Theorem add_remove_is_a_stack (s : World) (n : nat) :
  let s' := add_multiple_balls (Z.of_nat n) s in
  let first := length (store s) in
  balls s' = balls s ++ seq first n /\
  store s' =
    store s ++
    map (fun k => new_ball (random (random_calls s + k)%nat)) (seq 0 n) /\
  (forall (w : World) (l : list nat) (r : nat),
     balls w = l ++ [r] ->
     balls (remove_ball w) = l /\ popped w = Some r) /\
  (forall k : nat, (k <= n)%nat ->
     balls (Nat.iter k remove_ball s') = balls s ++ seq first (n - k)) /\
  (forall k : nat, (k < n)%nat ->
     popped (Nat.iter k remove_ball s') = Some (first + (n - 1 - k))%nat) /\
  length (balls (add_multiple_balls 5 empty_world)) = 5%nat /\
  balls (Nat.iter 5 remove_ball (add_multiple_balls 5 empty_world)) = [].
Proof.
  intros s' first.
  assert (Hadd : forall m w,
            balls (add_multiple_balls (Z.of_nat m) w) =
            balls w ++ seq (length (store w)) m).
  { intros m w. unfold add_multiple_balls. rewrite Nat2Z.id.
    apply (add_ball_n m w). }
  split; [apply Hadd|].
  split.
  { unfold s', add_multiple_balls. rewrite Nat2Z.id. apply (add_ball_n n s). }
  split.
  { intros w l r Hw. destruct (remove_ball_last w l r Hw) as (? & _ & ?).
    conjs. }
  split.
  { intros k Hk. apply remove_ball_n; [apply Hadd | exact Hk]. }
  split.
  { intros k Hk.
    pose proof (remove_ball_n k n first (balls s) s' (Hadd n s)
                  ltac:(lia)) as Hb.
    replace (n - k)%nat with (S (n - 1 - k)) in Hb by lia.
    rewrite seq_S, app_assoc in Hb.
    apply (remove_ball_last _ _ _ Hb). }
  split.
  { change 5%Z with (Z.of_nat 5). rewrite (Hadd 5%nat empty_world).
    reflexivity. }
  { change 5%Z with (Z.of_nat 5).
    rewrite (remove_ball_n 5 5 0 [] _ (Hadd 5%nat empty_world) ltac:(lia)).
    reflexivity. }
Qed.

(** C8. [remove_ball] on an empty list returns the state it was given:
    the list stays empty and nothing else changes. *)
Theorem remove_ball_empty (h : list Ball) (t : Q) (c : nat) :
  remove_ball (mkWorld h [] t c) = mkWorld h [] t c.
Proof. reflexivity. Qed.

(** ** New balls *)

Lemma avoid_zero_range (v : Q) :
  -4 <= v <= 4 -> 1 <= Qabs (avoid_zero v) /\ Qabs (avoid_zero v) <= 4.
Proof.
  intros Hv. unfold avoid_zero.
  destruct (Qltb (Qabs v) 1) eqn:E; walls.
  - destruct (Qleb 0 v); [rewrite Qabs_pos by lra | rewrite Qabs_neg by lra];
      lra.
  - split; [exact E|]. apply Qabs_Qle_condition. exact Hv.
Qed.

Lemma BALL_PENS_length : length BALL_PENS = 6%nat.
Proof. reflexivity. Qed.

(** C6. The ball that [add_ball] appends has a radius between 5 and 15,
    a speed between 1 and 4 on each axis (so never zero), the midpoint of
    the screen as its position and one of the six pens of the palette as
    its colour, provided [random] answers within its documented ranges. *)
Theorem add_ball_creates (s : World) :
  draw_ok (random (random_calls s)) ->
  exists b : Ball,
    store (add_ball s) = store s ++ [b] /\
    balls (add_ball s) = balls s ++ [length (store s)] /\
    (5 <= radius b <= 15)%Z /\
    (1 <= Qabs (vx b) /\ Qabs (vx b) <= 4) /\
    (1 <= Qabs (vy b) /\ Qabs (vy b) <= 4) /\
    ~ vx b == 0 /\ ~ vy b == 0 /\
    x b = inject_Z (WIDTH / 2) /\ y b = inject_Z (HEIGHT / 2) /\
    In (pen b) BALL_PENS /\ length BALL_PENS = 6%nat /\
    dampening b = 0.95.
Proof.
  intros (Hr & Hvx & Hvy & Hp).
  exists (new_ball (random (random_calls s))).
  destruct (avoid_zero_range _ Hvx) as (Hx1 & Hx4).
  destruct (avoid_zero_range _ Hvy) as (Hy1 & Hy4).
  cbn [add_ball store balls new_ball Ball_init radius vx vy x y pen dampening].
  split; [reflexivity|]. split; [reflexivity|]. split; [exact Hr|].
  split; [split; assumption|]. split; [split; assumption|].
  split; [intros E; rewrite E in Hx1; change (Qabs 0) with 0 in Hx1; lra|].
  split; [intros E; rewrite E in Hy1; change (Qabs 0) with 0 in Hy1; lra|].
  split; [reflexivity|]. split; [reflexivity|].
  split; [unfold choice; apply nth_In; exact Hp|].
  split; reflexivity.
Qed.

(** ** What the operations leave alone *)

Lemma update_all_frame (ls : list nat) (h0 h : list Ball) :
  (forall l b, h0 !! l = Some b ->
     exists b', h !! l = Some b' /\ same_identity b b') ->
  forall l b, h0 !! l = Some b ->
    exists b', fold_left (fun h l => alter update l h) ls h !! l = Some b' /\
               same_identity b b'.
Proof.
  revert h. induction ls as [|r ls IH]; intros h Hh; [exact Hh|].
  cbn [fold_left]. apply IH. intros l b Hl.
  destruct (Hh l b Hl) as (b' & Hb' & Hr & Hp & Hd).
  destruct (decide (r = l)) as [->|Hne].
  - exists (update b'). rewrite list_lookup_alter_eq, Hb'. split; [reflexivity|].
    unfold same_identity. destruct (update_frame b') as (-> & -> & ->). conjs.
  - exists b'. rewrite list_lookup_alter_ne by exact Hne.
    unfold same_identity. conjs.
Qed.

(** C9. [update] changes the position and the velocity of its ball and
    nothing else of it; the pass over all balls keeps every object's
    radius, pen and damping factor; [add_ball], [add_multiple_balls],
    [remove_ball] and [remove_all_balls] leave every existing [Ball] object
    as it is. *)
Theorem frame_conditions :
  (forall b : Ball,
     radius (update b) = radius b /\ pen (update b) = pen b /\
     dampening (update b) = dampening b) /\
  (forall (s : World) (l : nat) (b : Ball),
     store s !! l = Some b ->
     exists b', store (update_balls s) !! l = Some b' /\ same_identity b b') /\
  (forall (s : World) (l : nat) (b : Ball),
     store s !! l = Some b -> store (add_ball s) !! l = Some b) /\
  (forall (count : Z) (s : World) (l : nat) (b : Ball),
     store s !! l = Some b ->
     store (add_multiple_balls count s) !! l = Some b) /\
  (forall s : World, store (remove_ball s) = store s) /\
  (forall s : World, store (remove_all_balls s) = store s).
Proof.
  split; [exact update_frame|].
  split.
  { intros s l b Hl. cbn [update_balls store].
    apply (update_all_frame (balls s) (store s)); [|exact Hl].
    intros l' b' Hl'. exists b'. unfold same_identity. conjs. }
  split.
  { intros s l b Hl. cbn [add_ball store].
    apply lookup_app_l_Some. exact Hl. }
  split.
  { intros count s l b Hl. unfold add_multiple_balls.
    destruct (add_ball_n (Z.to_nat count) s) as (-> & _).
    apply lookup_app_l_Some. exact Hl. }
  split.
  { intros s. unfold remove_ball. destruct (balls s); reflexivity. }
  { intros s. reflexivity. }
Qed.

(** ** The controller *)

Lemma handle_input_open (i : Input) (s : World) :
  gate_open i s -> handle_input i s = dispatch i s.
Proof.
  unfold gate_open. intros Hg. apply Qltb_lt in Hg.
  unfold handle_input, dispatch, first_active, signals. rewrite Hg.
  destruct (button_up i), (button_down i), (button_left i), (button_right i);
    reflexivity.
Qed.

Lemma first_active_priority (i : Input) :
  (button_up i = true -> first_active i = Some AddOne) /\
  (button_up i = false -> button_down i = true ->
     first_active i = Some RemoveOne) /\
  (button_up i = false -> button_down i = false -> button_left i = true ->
     first_active i = Some ClearAll) /\
  (button_up i = false -> button_down i = false -> button_left i = false ->
     button_right i = true -> first_active i = Some AddHundred) /\
  (button_up i = false -> button_down i = false -> button_left i = false ->
     button_right i = false -> first_active i = None).
Proof.
  unfold first_active, signals.
  repeat split; intros; cbn;
    repeat match goal with H : _ = _ |- _ => rewrite H end; reflexivity.
Qed.


(** C4. When the gate lets the input through, the handling runs the
    command of the first active signal in the order add-one, remove-one,
    clear-all, add-hundred and stamps the time, or does nothing when no
    signal is active; the signals after the first active one do not
    count. *)
Theorem one_command_per_tick (i : Input) (s : World) :
  gate_open i s ->
  handle_input i s = dispatch i s /\
  (button_up i = true -> first_active i = Some AddOne) /\
  (button_up i = false -> button_down i = true ->
     first_active i = Some RemoveOne) /\
  (button_up i = false -> button_down i = false -> button_left i = true ->
     first_active i = Some ClearAll) /\
  (button_up i = false -> button_down i = false -> button_left i = false ->
     button_right i = true -> first_active i = Some AddHundred) /\
  (button_up i = false -> button_down i = false -> button_left i = false ->
     button_right i = false -> first_active i = None /\ handle_input i s = s).
Proof.
  intros Hg. pose proof (handle_input_open i s Hg) as Ho.
  destruct (first_active_priority i) as (H1 & H2 & H3 & H4 & H5).
  repeat split; try assumption; intros.
  - auto.
  - rewrite Ho. unfold dispatch. rewrite H5 by assumption. reflexivity.
Qed.

(** ** More on the pens, the walls, the pass over the balls and the gate *)

(** X6. [generate_pens] keeps the pens that the list holds and appends the six
    pens of the colour table, in the order of the table. *)
Theorem generate_pens_appends (ball_pens : list Pen) :
  generate_pens ball_pens =
    ball_pens ++ map (fun '(r, g, b) => create_pen r g b) colors /\
  length (generate_pens ball_pens) = (length ball_pens + 6)%nat /\
  BALL_PENS = map (fun '(r, g, b) => create_pen r g b) colors.
Proof.
  assert (H : generate_pens ball_pens =
              ball_pens ++ map (fun '(r, g, b) => create_pen r g b) colors).
  { unfold generate_pens, colors. cbn [fold_left map].
    rewrite <- !app_assoc. reflexivity. }
  split; [exact H|]. split; [|reflexivity].
  rewrite H, length_app. reflexivity.
Qed.

Lemma apply_velocity_fields (b : Ball) :
  x (apply_velocity b) = x b + vx b /\ y (apply_velocity b) = y b + vy b /\
  radius (apply_velocity b) = radius b.
Proof. conjs. Qed.

(** X2. A ball that lies within the walls and bounces off a wall in one frame
    does not bounce off the walls of that axis in the next frame, as long
    as its speed after the bounce is no more than the room between the
    walls: the snap to the wall keeps it from sticking. *)
Theorem no_bounce_twice (b : Ball) :
  dampening b = 0.95 ->
  inject_Z (radius b) <= x b <= inject_Z WIDTH - inject_Z (radius b) ->
  inject_Z (radius b) <= y b <= inject_Z HEIGHT - inject_Z (radius b) ->
  0.95 * Qabs (vx b) <= inject_Z WIDTH - 2 * inject_Z (radius b) ->
  0.95 * Qabs (vy b) <= inject_Z HEIGHT - 2 * inject_Z (radius b) ->
  (x_violation b = true -> x_violation (update b) = false) /\
  (y_violation b = true -> y_violation (update b) = false).
Proof.
  intros Hd (Hx1 & Hx2) (Hy1 & Hy2) Hrx Hry.
  destruct (update_frame b) as (Hr & _).
  split; intros Hv.
  - unfold x_violation in *.
    destruct (apply_velocity_fields (update b)) as (Ex & _ & Er).
    unfold hits_left at 1, hits_right at 1. rewrite Ex, Er, Hr.
    destruct (update_x_cases b) as
      [(Hl & -> & ->) | [(Hl & Hrt & -> & ->) | (Hl & Hrt & _)]];
      [| |rewrite Hl, Hrt in Hv; discriminate].
    + unfold hits_left in Hl. cbn in Hl. walls.
      assert (Hneg : vx b < 0) by lra.
      rewrite (Qabs_neg (vx b)) in Hrx by lra. rewrite Hd.
      apply orb_false_iff. split; apply Qltb_ge; lra.
    + unfold hits_right in Hrt. cbn in Hrt. walls.
      assert (Hpos : 0 < vx b) by lra.
      rewrite (Qabs_pos (vx b)) in Hrx by lra. rewrite Hd.
      apply orb_false_iff. split; apply Qltb_ge; rewrite inject_Z_sub; lra.
  - unfold y_violation in *.
    destruct (apply_velocity_fields (update b)) as (_ & Ey & Er).
    unfold hits_top at 1, hits_bottom at 1. rewrite Ey, Er, Hr.
    destruct (update_y_cases b) as
      [(Hl & -> & ->) | [(Hl & Hrt & -> & ->) | (Hl & Hrt & _)]];
      [| |rewrite Hl, Hrt in Hv; discriminate].
    + unfold hits_top in Hl. cbn in Hl. walls.
      assert (Hneg : vy b < 0) by lra.
      rewrite (Qabs_neg (vy b)) in Hry by lra. rewrite Hd.
      apply orb_false_iff. split; apply Qltb_ge; lra.
    + unfold hits_bottom in Hrt. cbn in Hrt. walls.
      assert (Hpos : 0 < vy b) by lra.
      rewrite (Qabs_pos (vy b)) in Hry by lra. rewrite Hd.
      apply orb_false_iff. split; apply Qltb_ge; rewrite inject_Z_sub; lra.
Qed.

Lemma update_all_lookup (ls : list nat) (h : list Ball) (l : nat) :
  NoDup ls ->
  fold_left (fun h l => alter update l h) ls h !! l =
    if decide (l ∈ ls) then update <$> h !! l else h !! l.
Proof.
  revert h. induction ls as [|r ls IH]; intros h Hnd.
  - cbn [fold_left]. destruct (decide (l ∈ [])) as [Hin|_]; [|reflexivity].
    apply elem_of_nil in Hin. contradiction.
  - apply NoDup_cons in Hnd as (Hr & Hnd). cbn [fold_left].
    rewrite (IH _ Hnd).
    destruct (decide (r = l)) as [->|Hne].
    + destruct (decide (l ∈ ls)) as [Hin|_]; [contradiction|].
      rewrite list_lookup_alter_eq.
      destruct (decide (l ∈ l :: ls)) as [_|Hn]; [reflexivity|].
      elim Hn. apply elem_of_cons. left. reflexivity.
    + rewrite list_lookup_alter_ne by exact Hne.
      destruct (decide (l ∈ ls)) as [Hin|Hin],
               (decide (l ∈ r :: ls)) as [Hin'|Hin']; try reflexivity.
      * elim Hin'. apply elem_of_cons. right. exact Hin.
      * apply elem_of_cons in Hin' as [->|Hin']; contradiction.
Qed.

(** X3. When no ball occurs twice in the list, the pass over the balls
    updates every ball of the list exactly once and leaves the balls that
    are no longer in the list as they are. *)
Theorem update_balls_once (s : World) (l : nat) :
  NoDup (balls s) ->
  store (update_balls s) !! l =
    if decide (l ∈ balls s) then update <$> store s !! l else store s !! l.
Proof. intros Hnd. cbn [update_balls store]. apply update_all_lookup, Hnd. Qed.





(** ** The whole game *)

Section Game.

(** [random] keeps its promises, and the screen has room for the largest
    ball. *)
Hypothesis random_ok : forall k : nat, draw_ok (random k).
Hypothesis wide : (30 <= WIDTH)%Z.
Hypothesis high : (30 <= HEIGHT)%Z.

Lemma update_ball_ok (b : Ball) : ball_ok b -> ball_ok (update b).
Proof using Type.
  intros (HW & HH & _). unfold ball_ok.
  destruct (update_frame b) as (Hr & _). rewrite Hr.
  split; [exact HW|]. split; [exact HH|].
  destruct (update_clamps b HW HH) as ((? & ?) & (? & ?)).
  unfold in_bounds, slack. rewrite Hr. repeat split; lra.
Qed.

Lemma new_ball_ok (k : nat) : ball_ok (new_ball (random k)).
Proof using random_ok wide high.
  destruct (random_ok k) as ((_ & Hr) & _).
  assert (HW : (2 * rand_radius (random k) <= WIDTH)%Z) by lia.
  assert (HH : (2 * rand_radius (random k) <= HEIGHT)%Z) by lia.
  split; [exact HW|]. split; [exact HH|].
  apply new_ball_in_bounds; assumption.
Qed.

Lemma add_ball_ok (s : World) : world_ok s -> world_ok (add_ball s).
Proof using random_ok wide high.
  intros (Hnd & Hin & Hok). unfold world_ok, add_ball.
  cbn [store balls]. split; [|split].
  - apply NoDup_app. split; [exact Hnd|]. split; [|apply NoDup_singleton].
    intros l Hl Hl'. apply list_elem_of_singleton in Hl'. subst l.
    specialize (Hin _ Hl). lia.
  - intros l Hl. rewrite length_app. cbn.
    apply elem_of_app in Hl as [Hl|Hl].
    + specialize (Hin _ Hl). lia.
    + apply list_elem_of_singleton in Hl. lia.
  - intros l b Hl. apply lookup_app_Some in Hl as [Hl|(_ & Hl)].
    + exact (Hok l b Hl).
    + apply list_lookup_singleton_Some in Hl as (_ & <-). apply new_ball_ok.
Qed.

Lemma add_multiple_balls_ok (count : Z) (s : World) :
  world_ok s -> world_ok (add_multiple_balls count s).
Proof using random_ok wide high.
  intros Hs. unfold add_multiple_balls.
  induction (Z.to_nat count) as [|n IH]; [exact Hs|].
  change (Nat.iter (S n) add_ball s) with (add_ball (Nat.iter n add_ball s)).
  apply add_ball_ok. exact IH.
Qed.

Lemma remove_ball_ok (s : World) : world_ok s -> world_ok (remove_ball s).
Proof using Type.
  intros Hs. pose proof Hs as (Hnd & Hin & Hok). unfold remove_ball.
  destruct (balls s) as [|r0 l0] eqn:E; [exact Hs|].
  destruct (exists_last (l := r0 :: l0) ltac:(discriminate)) as (l & r & El).
  rewrite El in *. rewrite removelast_last.
  apply NoDup_app in Hnd as (Hnd & _ & _).
  split; [exact Hnd|]. split; [|exact Hok].
  cbn [balls store]. intros k Hk. apply Hin. apply elem_of_app. left. exact Hk.
Qed.

Lemma remove_all_balls_ok (s : World) :
  world_ok s -> world_ok (remove_all_balls s).
Proof using Type.
  intros (_ & _ & Hok). split; [apply NoDup_nil_2|].
  split; [|exact Hok]. cbn. intros l Hl. apply elem_of_nil in Hl. contradiction.
Qed.

Lemma handle_input_ok (i : Input) (s : World) :
  world_ok s -> world_ok (handle_input i s).
Proof using random_ok wide high.
  intros Hs. unfold handle_input.
  assert (Hset : forall t w, world_ok w -> world_ok (set_last_press_time t w))
    by (intros t w Hw; exact Hw).
  destruct (Qltb _ _); [|exact Hs].
  destruct (button_up i); [apply Hset, add_ball_ok, Hs|].
  destruct (button_down i); [apply Hset, remove_ball_ok, Hs|].
  destruct (button_left i); [apply Hset, remove_all_balls_ok, Hs|].
  destruct (button_right i); [apply Hset, add_multiple_balls_ok, Hs|].
  exact Hs.
Qed.

Lemma update_all_ok (ls : list nat) (h : list Ball) :
  (forall l b, h !! l = Some b -> ball_ok b) ->
  length (fold_left (fun h l => alter update l h) ls h) = length h /\
  forall l b,
    fold_left (fun h l => alter update l h) ls h !! l = Some b -> ball_ok b.
Proof using Type.
  revert h. induction ls as [|r ls IH]; intros h Hh; [split; [reflexivity|exact Hh]|].
  cbn [fold_left].
  destruct (IH (alter update r h)) as (Hlen & Hok).
  - intros l b Hl. destruct (decide (r = l)) as [->|Hne].
    + rewrite list_lookup_alter_eq in Hl.
      destruct (h !! l) as [b0|] eqn:E; [|discriminate].
      injection Hl as <-. apply update_ball_ok. exact (Hh l b0 E).
    + rewrite list_lookup_alter_ne in Hl by exact Hne. exact (Hh l b Hl).
  - split; [|exact Hok]. rewrite Hlen. apply length_alter.
Qed.

Lemma update_balls_ok (s : World) : world_ok s -> world_ok (update_balls s).
Proof using Type.
  intros (Hnd & Hin & Hok). unfold world_ok, update_balls. cbn [store balls].
  destruct (update_all_ok (balls s) (store s) Hok) as (Hlen & Hok').
  split; [exact Hnd|]. split; [|exact Hok'].
  intros l Hl. rewrite Hlen. exact (Hin l Hl).
Qed.

Lemma initial_world_ok : world_ok initial_world.
Proof using random_ok wide high.
  apply add_multiple_balls_ok. split; [apply NoDup_nil_2|]. split.
  - intros l Hl. apply elem_of_nil in Hl. contradiction.
  - intros l b Hl. cbn in Hl. discriminate.
Qed.

(** X1. Whatever the buttons do and for however many frames, every ball of
    the game stays on the screen, and the list of balls never refers to a
    ball twice. *)
Theorem run_game_ok (inputs : list Input) :
  world_ok (run_game inputs initial_world).
Proof using random_ok wide high.
  unfold run_game. generalize initial_world_ok. generalize initial_world.
  induction inputs as [|i inputs IH]; intros s Hs; [exact Hs|].
  cbn [fold_left]. apply IH. unfold frame.
  apply update_balls_ok, handle_input_ok, Hs.
Qed.

(** *** What is drawn *)

Lemma add_ball_refs (s : World) : refs_ok s -> refs_ok (add_ball s).
Proof using Type.
  intros (Hnd & Hin). unfold refs_ok, add_ball. cbn [store balls]. split.
  - apply NoDup_app. split; [exact Hnd|]. split; [|apply NoDup_singleton].
    intros l Hl Hl'. apply list_elem_of_singleton in Hl'. subst l.
    specialize (Hin _ Hl). lia.
  - intros l Hl. rewrite length_app. cbn.
    apply elem_of_app in Hl as [Hl|Hl].
    + specialize (Hin _ Hl). lia.
    + apply list_elem_of_singleton in Hl. lia.
Qed.

Lemma add_multiple_balls_refs (count : Z) (s : World) :
  refs_ok s -> refs_ok (add_multiple_balls count s).
Proof using Type.
  intros Hs. unfold add_multiple_balls.
  induction (Z.to_nat count) as [|n IH]; [exact Hs|].
  change (Nat.iter (S n) add_ball s) with (add_ball (Nat.iter n add_ball s)).
  apply add_ball_refs, IH.
Qed.

Lemma remove_ball_refs (s : World) : refs_ok s -> refs_ok (remove_ball s).
Proof using Type.
  intros Hs. pose proof Hs as (Hnd & Hin). unfold remove_ball.
  destruct (balls s) as [|r0 l0] eqn:E; [exact Hs|].
  destruct (exists_last (l := r0 :: l0) ltac:(discriminate)) as (l & r & El).
  rewrite El in *. rewrite removelast_last.
  apply NoDup_app in Hnd as (Hnd & _ & _).
  split; [exact Hnd|].
  cbn [balls store]. intros k Hk. apply Hin. apply elem_of_app. left. exact Hk.
Qed.

Lemma handle_input_refs (i : Input) (s : World) :
  refs_ok s -> refs_ok (handle_input i s).
Proof using Type.
  intros Hs. unfold handle_input.
  assert (Hset : forall t w, refs_ok w -> refs_ok (set_last_press_time t w))
    by (intros t w Hw; exact Hw).
  destruct (Qltb _ _); [|exact Hs].
  destruct (button_up i); [apply Hset, add_ball_refs, Hs|].
  destruct (button_down i); [apply Hset, remove_ball_refs, Hs|].
  destruct (button_left i).
  { split; [apply NoDup_nil_2|]. cbn. intros l Hl.
    apply elem_of_nil in Hl. contradiction. }
  destruct (button_right i); [apply Hset, add_multiple_balls_refs, Hs|].
  exact Hs.
Qed.

Lemma update_and_draw_store (ls : list nat) (h : list Ball) (t : list Effect) :
  fst (fold_left update_and_draw ls (h, t)) =
    fold_left (fun h l => alter update l h) ls h.
Proof using Type.
  revert h t. induction ls as [|r ls IH]; intros h t; [reflexivity|].
  cbn [fold_left]. unfold update_and_draw at 2. cbn [fst snd]. apply IH.
Qed.

Lemma run_frame_state (i : Input) (s : World) :
  fst (run_frame i s) = frame i s.
Proof using Type.
  unfold run_frame, frame, update_balls. cbn [fst].
  rewrite update_and_draw_store. reflexivity.
Qed.

Lemma update_and_draw_effects (ls : list nat) (h : list Ball)
    (t : list Effect) :
  NoDup ls ->
  snd (fold_left update_and_draw ls (h, t)) =
    t ++ flat_map
           (picture (fold_left (fun h l => alter update l h) ls h)) ls.
Proof using Type.
  revert h t. induction ls as [|r ls IH]; intros h t Hnd.
  - cbn. rewrite app_nil_r. reflexivity.
  - apply NoDup_cons in Hnd as (Hr & Hnd). cbn [fold_left flat_map].
    unfold update_and_draw at 2. cbn [fst snd].
    rewrite (IH _ _ Hnd), <- app_assoc. f_equal. f_equal.
    unfold picture. rewrite (update_all_lookup ls _ r Hnd).
    destruct (decide (r ∈ ls)); [contradiction | reflexivity].
Qed.

(** X7. The picture of a frame is a snapshot of the state at its end: the
    loop with its drawing calls reaches the state of [frame], and what it
    sends out is the title and the count of that state, then every ball of
    the list, once and in list order, as it is at the end of the frame,
    then the flush and the pause. *)
Theorem frame_is_a_snapshot (i : Input) (s : World) :
  refs_ok s ->
  fst (run_frame i s) = frame i s /\
  snd (run_frame i s) =
    draw_info (frame i s) ++
    flat_map (picture (store (frame i s))) (balls (frame i s)) ++
    [Update; Sleep FRAME_DELAY_S].
Proof using Type.
  intros Hs. split; [apply run_frame_state|].
  destruct (handle_input_refs i s Hs) as (Hnd & _).
  unfold run_frame, frame. cbn [snd].
  rewrite (update_and_draw_effects _ _ _ Hnd), <- app_assoc. reflexivity.
Qed.

(** Cutting the fraction off a float that lies between two integers
    leaves an integer between the two. *)
Lemma int_of_float_between (a b : Z) (v : Q) :
  inject_Z a <= v -> v <= inject_Z b ->
  (a <= int_of_float v <= b)%Z.
Proof using Type.
  destruct v as [n d]. unfold Qle, int_of_float. cbn.
  intros Ha Hb. pose proof (Pos2Z.is_pos d).
  Z.to_euclidean_division_equations. nia.
Qed.

Lemma draw_updated_on_screen (b : Ball) :
  ball_ok b -> Forall on_screen (draw (update b)).
Proof using Type.
  intros (HW & HH & _).
  destruct (update_clamps b HW HH) as ((Hx1 & Hx2) & (Hy1 & Hy2)).
  destruct (update_frame b) as (Hr & _).
  rewrite <- inject_Z_sub in Hx2, Hy2.
  pose proof (int_of_float_between _ _ _ Hx1 Hx2).
  pose proof (int_of_float_between _ _ _ Hy1 Hy2).
  unfold draw. repeat constructor; rewrite Hr; lia.
Qed.

Lemma update_and_draw_on_screen (ls : list nat) (h : list Ball)
    (t : list Effect) :
  (forall l b, h !! l = Some b -> ball_ok b) ->
  Forall on_screen t ->
  Forall on_screen (snd (fold_left update_and_draw ls (h, t))).
Proof using Type.
  revert h t. induction ls as [|r ls IH]; intros h t Hh Ht; [exact Ht|].
  cbn [fold_left]. unfold update_and_draw at 2. cbn [fst snd]. apply IH.
  - intros l b Hl. destruct (decide (r = l)) as [->|Hne].
    + rewrite list_lookup_alter_eq in Hl.
      destruct (h !! l) as [b0|] eqn:E; [|discriminate].
      injection Hl as <-. apply update_ball_ok. exact (Hh l b0 E).
    + rewrite list_lookup_alter_ne in Hl by exact Hne. exact (Hh l b Hl).
  - apply Forall_app. split; [exact Ht|].
    rewrite list_lookup_alter_eq.
    destruct (h !! r) as [b0|] eqn:E; cbn; [|constructor].
    apply draw_updated_on_screen. exact (Hh r b0 E).
Qed.

Lemma run_frame_on_screen (i : Input) (s : World) :
  world_ok s -> Forall on_screen (snd (run_frame i s)).
Proof using random_ok wide high.
  intros Hs. destruct (handle_input_ok i s Hs) as (_ & _ & Hok).
  unfold run_frame. cbn [snd]. apply Forall_app. split.
  - apply update_and_draw_on_screen; [exact Hok|].
    unfold draw_info. repeat constructor.
  - repeat constructor.
Qed.

Lemma run_frames_state (inputs : list Input) (s : World)
    (t : list Effect) :
  fst (fold_left (fun st i => let r := run_frame i (fst st) in
                              (fst r, snd st ++ snd r)) inputs (s, t)) =
    run_game inputs s.
Proof using Type.
  revert s t. induction inputs as [|i inputs IH]; intros s t; [reflexivity|].
  unfold run_game. cbn [fold_left fst snd]. rewrite IH, run_frame_state.
  reflexivity.
Qed.

(** X8. Every circle that the game ever draws lies on the screen as a whole,
    whatever the buttons do and for however many frames. *)
Theorem circles_stay_on_screen (inputs : list Input) :
  Forall on_screen (snd (run_frames inputs initial_world)).
Proof using random_ok wide high.
  unfold run_frames.
  assert (H : forall s t, world_ok s -> Forall on_screen t ->
            Forall on_screen
              (snd (fold_left (fun st i => let r := run_frame i (fst st) in
                                           (fst r, snd st ++ snd r))
                              inputs (s, t)))).
  { induction inputs as [|i inputs IH]; intros s t Hs Ht; [exact Ht|].
    cbn [fold_left fst snd]. apply IH.
    - rewrite run_frame_state. unfold frame.
      apply update_balls_ok, handle_input_ok, Hs.
    - apply Forall_app. split; [exact Ht | apply run_frame_on_screen, Hs]. }
  apply H; [apply initial_world_ok | constructor].
Qed.

Lemma update_and_draw_circles (ls : list nat) (h : list Ball)
    (t : list Effect) :
  (forall l : nat, l ∈ ls -> (l < length h)%nat) ->
  length (List.filter is_circle (snd (fold_left update_and_draw ls (h, t)))) =
    (length (List.filter is_circle t) + length ls)%nat.
Proof using Type.
  revert h t. induction ls as [|r ls IH]; intros h t Hh.
  - cbn. lia.
  - cbn [fold_left]. unfold update_and_draw at 2. cbn [fst snd].
    rewrite IH.
    + rewrite List.filter_app, length_app.
      destruct (lookup_lt_is_Some_2 (alter update r h) r) as (b & ->).
      { rewrite length_alter. apply Hh. apply elem_of_cons. left. reflexivity. }
      cbn. lia.
    + intros l Hl. rewrite length_alter. apply Hh.
      apply elem_of_cons. right. exact Hl.
Qed.

(** X9. The count that a frame writes is the number of circles that it
    draws: the frame shows ["COUNT: n"] for the n balls of the list after
    the input handling and draws exactly n circles. *)
Theorem count_matches_circles (i : Input) (s : World) :
  refs_ok s ->
  let n := length (balls (frame i s)) in
  In (Text (String.append "COUNT: " (str n)) 5 (HEIGHT - 15) 2)
     (snd (run_frame i s)) /\
  length (List.filter is_circle (snd (run_frame i s))) = n.
Proof using Type.
  intros Hs n. destruct (handle_input_refs i s Hs) as (_ & Hin).
  unfold run_frame. cbn [snd]. split.
  - apply in_or_app. left.
    assert (Hsub : forall ls h t e, In e t ->
              In e (snd (fold_left update_and_draw ls (h, t)))).
    { induction ls as [|r ls IH]; intros h t e He; [exact He|].
      cbn [fold_left]. unfold update_and_draw at 2. cbn [fst snd].
      apply IH. apply in_or_app. left. exact He. }
    apply Hsub. unfold draw_info. do 5 right. left. reflexivity.
  - rewrite List.filter_app, length_app, (update_and_draw_circles _ _ _ Hin).
    cbn. unfold n, frame. cbn [update_balls balls]. lia.
Qed.

(** *** Speeds *)

Lemma update_lively (b : Ball) : lively b -> lively (update b).
Proof using Type.
  intros ((Hx0 & Hx4) & (Hy0 & Hy4) & Hd). unfold lively.
  destruct (update_frame b) as (_ & _ & ->).
  rewrite update_vx, update_vy, Hd.
  split; [|split; [|reflexivity]].
  - destruct (x_violation b); [rewrite Qabs_damped|]; lra.
  - destruct (y_violation b); [rewrite Qabs_damped|]; lra.
Qed.

Lemma new_ball_lively (k : nat) : lively (new_ball (random k)).
Proof using random_ok.
  destruct (random_ok k) as (_ & Hvx & Hvy & _).
  destruct (avoid_zero_range _ Hvx), (avoid_zero_range _ Hvy).
  unfold lively. cbn [new_ball Ball_init vx vy dampening].
  repeat split; try reflexivity; lra.
Qed.

Lemma store_set_last_press_time (t : Q) (w : World) :
  store (set_last_press_time t w) = store w.
Proof using Type. reflexivity. Qed.

Lemma add_ball_lively (s : World) :
  Forall lively (store s) -> Forall lively (store (add_ball s)).
Proof using random_ok.
  intros Hs. cbn [add_ball store]. apply Forall_app. split; [exact Hs|].
  apply Forall_singleton, new_ball_lively.
Qed.

Lemma add_multiple_balls_lively (count : Z) (s : World) :
  Forall lively (store s) ->
  Forall lively (store (add_multiple_balls count s)).
Proof using random_ok.
  intros Hs. unfold add_multiple_balls.
  induction (Z.to_nat count) as [|n IH]; [exact Hs|].
  change (Nat.iter (S n) add_ball s) with (add_ball (Nat.iter n add_ball s)).
  apply add_ball_lively, IH.
Qed.

Lemma handle_input_lively (i : Input) (s : World) :
  Forall lively (store s) -> Forall lively (store (handle_input i s)).
Proof using random_ok.
  intros Hs. unfold handle_input. destruct (Qltb _ _); [|exact Hs].
  destruct (button_up i).
  { rewrite store_set_last_press_time. apply add_ball_lively, Hs. }
  destruct (button_down i).
  { rewrite store_set_last_press_time. unfold remove_ball.
    destruct (balls s); exact Hs. }
  destruct (button_left i); [exact Hs|].
  destruct (button_right i); [|exact Hs].
  rewrite store_set_last_press_time. apply add_multiple_balls_lively, Hs.
Qed.

Lemma update_balls_lively (s : World) :
  Forall lively (store s) -> Forall lively (store (update_balls s)).
Proof using Type.
  cbn [update_balls store]. generalize (store s) as h.
  induction (balls s) as [|r ls IH]; intros h Hh; [exact Hh|].
  cbn [fold_left]. apply IH. apply Forall_alter; [exact Hh|].
  intros b _ Hb. apply update_lively, Hb.
Qed.

(** X10. No ball of the game ever stands still on an axis or moves faster than
    4 pixels a frame on it, and every ball keeps the damping factor
    0.95. *)
Theorem balls_keep_moving (inputs : list Input) :
  Forall lively (store (run_game inputs initial_world)).
Proof using random_ok.
  assert (H0 : Forall lively (store initial_world))
    by (apply add_multiple_balls_lively; constructor).
  revert H0. unfold run_game. generalize initial_world.
  induction inputs as [|i inputs IH]; intros s Hs; [exact Hs|].
  cbn [fold_left]. apply IH. unfold frame.
  apply update_balls_lively, handle_input_lively, Hs.
Qed.

End Game.

(** ** The debounce gate in binary64

    The exact rationals above leave out the rounding of the clock
    arithmetic, and when exactly 200 ms lie between two clock readings it
    is the rounding that decides the gate.  Here the clock, the stamp and
    the test are the binary64 values that the program computes. *)

Import PrimFloat.

(** [float(n)] of the millisecond counter, a non-negative integer far
    below 2^53, so that the conversion is exact. *)
Definition float_of_int (n : Z) : float := of_uint63 (Uint63.of_Z n).

(** [current_time = time.ticks_ms() / 1000.0] *)
Definition current_time64 (i : Input) : float :=
  (float_of_int (ticks_ms i) / 1000)%float.

(** [DEBOUNCE_TIME = 0.2]: the binary64 value next to 0.2. *)
Definition DEBOUNCE_TIME64 : float := 0x1.999999999999ap-3%float.

(** The test [(current_time - last_press_time) > DEBOUNCE_TIME]. *)
Definition gate64 (now last : float) : bool :=
  (DEBOUNCE_TIME64 <? now - last)%float.

(** Step 1 of the loop body with [last_press_time] as the float that the
    program keeps: the stamp travels beside the world, and the rational
    stamp inside the world plays no part. *)
Definition handle_input64 (i : Input) (s : World) (last : float) :
  World * float :=
  let now := current_time64 i in
  if gate64 now last then
    if button_up i then (add_ball s, now)
    else if button_down i then (remove_ball s, now)
    else if button_left i then (remove_all_balls s, now)
    else if button_right i then (add_multiple_balls 100 s, now)
    else (s, last)
  else (s, last).




(** Where the two gates agree, the two models of the input handling do
    the same to the balls. *)
Lemma handle_input64_agrees (i : Input) (s : World) (last : float) :
  gate64 (current_time64 i) last =
    Qltb DEBOUNCE_TIME (current_time i - last_press_time s) ->
  store (fst (handle_input64 i s last)) = store (handle_input i s) /\
  balls (fst (handle_input64 i s last)) = balls (handle_input i s) /\
  random_calls (fst (handle_input64 i s last)) =
    random_calls (handle_input i s).
Proof.
  intros Hg.
  assert (H : forall (w : World) (t : Q) (f : float),
            store (fst (w, f)) = store (set_last_press_time t w) /\
            balls (fst (w, f)) = balls (set_last_press_time t w) /\
            random_calls (fst (w, f)) =
              random_calls (set_last_press_time t w))
    by (intros; repeat split).
  unfold handle_input64, handle_input. rewrite Hg.
  destruct (Qltb _ _); [|conjs].
  destruct (button_up i); [apply H|]. destruct (button_down i); [apply H|].
  destruct (button_left i); [apply H|]. destruct (button_right i); [apply H|].
  conjs.
Qed.


End Tufty.

(** ** The program on the Tufty 2040

    The display of the Tufty 2040 is 320 by 240 pixels.  A pen is taken to
    be its colour, and the answers of [random] follow a fixed pattern. *)

Definition tufty_width : Z := 320.
Definition tufty_height : Z := 240.

Definition rgb : Type := (Z * Z * Z)%type.
Definition rgb_pen (r g b : Z) : rgb := (r, g, b).

Definition demo_random (k : nat) : Draw :=
  mkDraw (5 + Z.of_nat (k mod 11)) (-0.5) 3 (k mod 6).

Definition demo_update : Ball rgb -> Ball rgb :=
  update tufty_width tufty_height rgb.

Definition demo_new_ball (k : nat) : Ball rgb :=
  new_ball tufty_width tufty_height rgb rgb_pen (demo_random k).

Definition demo_world : World rgb :=
  initial_world tufty_width tufty_height rgb rgb_pen demo_random.

Definition demo_handle_input : Input -> World rgb -> World rgb :=
  handle_input tufty_width tufty_height rgb rgb_pen demo_random.

(** A ball just right of the left wall, moving left. *)
Definition ball_at_left_wall : Ball rgb :=
  Ball_init rgb 5.5 100 5 (-1) 2 (102, 0, 153)%Z.

(** The first ball of the game after 155 frames: it touches the left wall. *)
Definition ball_before_bounce : Ball rgb :=
  Nat.iter 155 demo_update (demo_new_ball 0).

(** 200 ms after the start, with the UP button held. *)
Definition press_at_200ms : Input := mkInput 200 true false false false.

(** One second after the start, with UP and DOWN held together. *)
Definition two_buttons_at_1s : Input := mkInput 1000 true true false false.

(** The first ball of the demo game stays on the screen for 200 frames. *)
Lemma update_stays_in_bounds_witness :
  (2 * rand_radius (demo_random 0) <= tufty_width)%Z /\
  (2 * rand_radius (demo_random 0) <= tufty_height)%Z /\
  in_bounds tufty_width tufty_height rgb
    (Nat.iter 200 demo_update (demo_new_ball 0)).
Proof.
  assert (HW : (2 * rand_radius (demo_random 0) <= tufty_width)%Z)
    by (vm_compute; discriminate).
  assert (HH : (2 * rand_radius (demo_random 0) <= tufty_height)%Z)
    by (vm_compute; discriminate).
  split; [exact HW|]. split; [exact HH|].
  exact (update_stays_in_bounds tufty_width tufty_height rgb rgb_pen
           (demo_random 0) 200 HW HH).
Defined.

(** The ball at the left wall comes back at speed 0.95, sitting at x = 5. *)
Lemma left_wall_bounce_witness :
  dampening rgb ball_at_left_wall = 0.95 /\
  vx rgb ball_at_left_wall < 0 /\
  x rgb ball_at_left_wall + vx rgb ball_at_left_wall
    - inject_Z (radius rgb ball_at_left_wall) < 0 /\
  0 < vx rgb (demo_update ball_at_left_wall) /\
  vx rgb (demo_update ball_at_left_wall) = -1 * Qopp 0.95 /\
  x rgb (demo_update ball_at_left_wall) = inject_Z 5.
Proof.
  assert (Hd : dampening rgb ball_at_left_wall = 0.95) by reflexivity.
  assert (Hv : vx rgb ball_at_left_wall < 0) by reflexivity.
  assert (Hx : x rgb ball_at_left_wall + vx rgb ball_at_left_wall
                 - inject_Z (radius rgb ball_at_left_wall) < 0)
    by reflexivity.
  destruct (left_wall_bounce tufty_width tufty_height rgb
              ball_at_left_wall Hd Hv Hx) as (H1 & H2 & _ & H4).
  split; [exact Hd|]. split; [exact Hv|]. split; [exact Hx|].
  split; [exact H1|]. split; [exact H2 | exact H4].
Defined.

(** The first ball of the demo game reaches the left wall at speed 1 and
    leaves it at speed 0.95, below the floor that [add_ball] set. *)
Lemma update_never_speeds_up_witness :
  dampening rgb ball_before_bounce = 0.95 /\
  x_violation tufty_width rgb ball_before_bounce = true /\
  Qabs (vx rgb ball_before_bounce) == 1 /\
  Qabs (vx rgb (demo_update ball_before_bounce)) < 1.
Proof.
  assert (Hd : dampening rgb ball_before_bounce = 0.95)
    by (vm_compute; reflexivity).
  assert (Hv : x_violation tufty_width rgb ball_before_bounce = true)
    by (vm_compute; reflexivity).
  assert (H1 : Qabs (vx rgb ball_before_bounce) == 1)
    by (vm_compute; reflexivity).
  destruct (update_never_speeds_up tufty_width tufty_height rgb
              ball_before_bounce Hd) as (_ & _ & _ & _ & _ & _ & _ & Hb & _).
  split; [exact Hd|]. split; [exact Hv|]. split; [exact H1|].
  exact (Hb Hv H1).
Defined.

(** The first ball that the demo game adds. *)
Lemma add_ball_creates_witness :
  draw_ok rgb rgb_pen
    (demo_random (random_calls rgb (empty_world rgb))) /\
  exists b : Ball rgb,
    store rgb (add_ball tufty_width tufty_height rgb rgb_pen demo_random
                 (empty_world rgb)) = [b] /\
    (5 <= radius rgb b <= 15)%Z /\
    1 <= Qabs (vx rgb b) /\ 1 <= Qabs (vy rgb b) /\
    In (pen rgb b) (BALL_PENS rgb rgb_pen).
Proof.
  assert (Hok : draw_ok rgb rgb_pen
                  (demo_random (random_calls rgb (empty_world rgb)))).
  { unfold draw_ok. cbn.
    repeat split; try (apply Qle_bool_iff; reflexivity); lia. }
  split; [exact Hok|].
  destruct (add_ball_creates tufty_width tufty_height rgb rgb_pen
              demo_random (empty_world rgb) Hok)
    as (b & Hs & _ & Hr & (Hx & _) & (Hy & _) & _ & _ & _ & _ & Hp & _).
  exists b. split; [exact Hs|]. split; [exact Hr|].
  split; [exact Hx|]. split; [exact Hy | exact Hp].
Defined.

(** With UP and DOWN held and the gate open, only the ball of UP comes. *)
Lemma one_command_per_tick_witness :
  gate_open rgb two_buttons_at_1s demo_world /\
  demo_handle_input two_buttons_at_1s demo_world =
    dispatch tufty_width tufty_height rgb rgb_pen demo_random
      two_buttons_at_1s demo_world /\
  first_active two_buttons_at_1s = Some AddOne.
Proof.
  assert (Hg : gate_open rgb two_buttons_at_1s demo_world) by reflexivity.
  destruct (one_command_per_tick tufty_width tufty_height rgb rgb_pen
              demo_random two_buttons_at_1s demo_world Hg)
    as (Hd & Hup & _).
  split; [exact Hg|]. split; [exact Hd | exact (Hup eq_refl)].
Defined.


(** The pattern of answers keeps the promises of [random]. *)
Lemma demo_random_ok (k : nat) : draw_ok rgb rgb_pen (demo_random k).
Proof.
  unfold draw_ok, demo_random. cbn [rand_radius rand_vx rand_vy rand_pen].
  pose proof (Nat.mod_upper_bound k 11 ltac:(lia)).
  pose proof (Nat.mod_upper_bound k 6 ltac:(lia)).
  split; [lia|].
  split; [split; apply Qle_bool_iff; reflexivity|].
  split; [split; apply Qle_bool_iff; reflexivity|].
  rewrite BALL_PENS_length. assumption.
Qed.

(** ** The further properties on the Tufty 2040 *)

(** Three frames: UP and DOWN held at 1 s, UP held at 0.2 s, DOWN held
    at 1.3 s. *)
Definition demo_inputs : list Input :=
  [ two_buttons_at_1s; press_at_200ms; mkInput 1300 false true false false ].

Lemma tufty_wide : (30 <= tufty_width)%Z.
Proof. unfold tufty_width. lia. Qed.

Lemma tufty_high : (30 <= tufty_height)%Z.
Proof. unfold tufty_height. lia. Qed.

Lemma demo_world_refs : refs_ok rgb demo_world.
Proof.
  destruct (initial_world_ok tufty_width tufty_height rgb rgb_pen demo_random
              demo_random_ok tufty_wide tufty_high) as (Hnd & Hin & _).
  split; assumption.
Qed.

Lemma run_game_ok_witness :
  (forall k : nat, draw_ok rgb rgb_pen (demo_random k)) /\
  (30 <= tufty_width)%Z /\ (30 <= tufty_height)%Z /\
  world_ok tufty_width tufty_height rgb
    (run_game tufty_width tufty_height rgb rgb_pen demo_random demo_inputs
       demo_world).
Proof.
  split; [exact demo_random_ok|]. split; [exact tufty_wide|].
  split; [exact tufty_high|].
  exact (run_game_ok tufty_width tufty_height rgb rgb_pen demo_random
           demo_random_ok tufty_wide tufty_high demo_inputs).
Defined.

Lemma no_bounce_twice_witness :
  dampening rgb ball_at_left_wall = 0.95 /\
  (inject_Z (radius rgb ball_at_left_wall) <= x rgb ball_at_left_wall /\
   x rgb ball_at_left_wall <=
     inject_Z tufty_width - inject_Z (radius rgb ball_at_left_wall)) /\
  (inject_Z (radius rgb ball_at_left_wall) <= y rgb ball_at_left_wall /\
   y rgb ball_at_left_wall <=
     inject_Z tufty_height - inject_Z (radius rgb ball_at_left_wall)) /\
  0.95 * Qabs (vx rgb ball_at_left_wall) <=
    inject_Z tufty_width - 2 * inject_Z (radius rgb ball_at_left_wall) /\
  0.95 * Qabs (vy rgb ball_at_left_wall) <=
    inject_Z tufty_height - 2 * inject_Z (radius rgb ball_at_left_wall) /\
  x_violation tufty_width rgb ball_at_left_wall = true /\
  x_violation tufty_width rgb (demo_update ball_at_left_wall) = false.
Proof.
  assert (Hd : dampening rgb ball_at_left_wall = 0.95) by reflexivity.
  assert (Hx : inject_Z (radius rgb ball_at_left_wall) <=
                 x rgb ball_at_left_wall <=
               inject_Z tufty_width - inject_Z (radius rgb ball_at_left_wall))
    by (split; apply Qle_bool_iff; reflexivity).
  assert (Hy : inject_Z (radius rgb ball_at_left_wall) <=
                 y rgb ball_at_left_wall <=
               inject_Z tufty_height - inject_Z (radius rgb ball_at_left_wall))
    by (split; apply Qle_bool_iff; reflexivity).
  assert (Hrx : 0.95 * Qabs (vx rgb ball_at_left_wall) <=
                inject_Z tufty_width
                  - 2 * inject_Z (radius rgb ball_at_left_wall))
    by (apply Qle_bool_iff; reflexivity).
  assert (Hry : 0.95 * Qabs (vy rgb ball_at_left_wall) <=
                inject_Z tufty_height
                  - 2 * inject_Z (radius rgb ball_at_left_wall))
    by (apply Qle_bool_iff; reflexivity).
  assert (Hv : x_violation tufty_width rgb ball_at_left_wall = true)
    by reflexivity.
  destruct (no_bounce_twice tufty_width tufty_height rgb ball_at_left_wall
              Hd Hx Hy Hrx Hry) as (Hnx & _).
  split; [exact Hd|]. split; [exact Hx|]. split; [exact Hy|].
  split; [exact Hrx|]. split; [exact Hry|]. split; [exact Hv|].
  exact (Hnx Hv).
Defined.

Lemma update_balls_once_witness :
  NoDup (balls rgb demo_world) /\
  store rgb (update_balls tufty_width tufty_height rgb demo_world) !! 1%nat =
    if decide (1%nat ∈ balls rgb demo_world)
    then demo_update <$> store rgb demo_world !! 1%nat
    else store rgb demo_world !! 1%nat.
Proof.
  assert (Hnd : NoDup (balls rgb demo_world)) by apply demo_world_refs.
  split; [exact Hnd|].
  exact (update_balls_once tufty_width tufty_height rgb demo_world 1 Hnd).
Defined.


Lemma frame_is_a_snapshot_witness :
  refs_ok rgb demo_world /\
  fst (run_frame tufty_width tufty_height rgb rgb_pen demo_random
         two_buttons_at_1s demo_world) =
    frame tufty_width tufty_height rgb rgb_pen demo_random
      two_buttons_at_1s demo_world.
Proof.
  split; [exact demo_world_refs|].
  exact (proj1 (frame_is_a_snapshot tufty_width tufty_height rgb rgb_pen
                  demo_random two_buttons_at_1s demo_world demo_world_refs)).
Defined.

Lemma circles_stay_on_screen_witness :
  (forall k : nat, draw_ok rgb rgb_pen (demo_random k)) /\
  (30 <= tufty_width)%Z /\ (30 <= tufty_height)%Z /\
  Forall (on_screen tufty_width tufty_height rgb)
    (snd (run_frames tufty_width tufty_height rgb rgb_pen demo_random
            demo_inputs demo_world)).
Proof.
  split; [exact demo_random_ok|]. split; [exact tufty_wide|].
  split; [exact tufty_high|].
  exact (circles_stay_on_screen tufty_width tufty_height rgb rgb_pen
           demo_random demo_random_ok tufty_wide tufty_high demo_inputs).
Defined.

Lemma count_matches_circles_witness :
  refs_ok rgb demo_world /\
  length (List.filter (is_circle rgb)
            (snd (run_frame tufty_width tufty_height rgb rgb_pen demo_random
                    two_buttons_at_1s demo_world))) =
    length (balls rgb (frame tufty_width tufty_height rgb rgb_pen
                         demo_random two_buttons_at_1s demo_world)).
Proof.
  split; [exact demo_world_refs|].
  exact (proj2 (count_matches_circles tufty_width tufty_height rgb rgb_pen
                  demo_random two_buttons_at_1s demo_world demo_world_refs)).
Defined.

Lemma balls_keep_moving_witness :
  (forall k : nat, draw_ok rgb rgb_pen (demo_random k)) /\
  Forall (lively rgb)
    (store rgb (run_game tufty_width tufty_height rgb rgb_pen demo_random
                  demo_inputs demo_world)).
Proof.
  split; [exact demo_random_ok|].
  exact (balls_keep_moving tufty_width tufty_height rgb rgb_pen demo_random
           demo_random_ok demo_inputs).
Defined.

(** A stamp at 600 ms and UP held at 800 ms: exactly 200 ms later, the
    binary64 gate is open and the ball is added. *)
Lemma gate_open_at_800ms :
  handle_input64 tufty_width tufty_height rgb rgb_pen demo_random
    (mkInput 800 true false false false) demo_world
    (current_time64 (mkInput 600 true false false false)) =
  (add_ball tufty_width tufty_height rgb rgb_pen demo_random demo_world,
   current_time64 (mkInput 800 true false false false)).
Proof. reflexivity. Qed.
